(** * A shallow embedding of [ecs.py]

    The module under study is a small entity-component-system core:
    an [Entity] holds a dictionary from component classes to component
    instances, and a [World] owns a list of entities, a
    [defaultdict(list)] indexed by component class, and a list of
    systems.

    Python objects are modelled as follows.
    - A class object is a [pytype]; [type(x) == T] is equality of classes.
    - [Component] and [System] instances are never mutated by [ecs.py];
      they are records carrying an identity and their class, and the
      default (identity) equality of Python is equality of records.  No
      class is taken to override [__eq__], so [x in l] and [l.remove(x)]
      compare by identity, and an entity never equals a component.
    - [Entity] instances are mutable and shared between the caller and
      the world.  They live in a store indexed by address, and every
      container holds addresses.
    - A Python list may hold objects of any class, so the items of a
      bucket of the type index are [pyobj] values.
    - A call either returns a value or raises; in both cases it leaves a
      state behind. *)

From stdpp Require Import gmap strings list fin_maps.

#[local] Set Warnings "-clear-no-such-hyp".

(** ** Classes *)

(** A class is its name together with the chain of its base classes
    (single inheritance is all the claims need). *)
Inductive pytype : Type :=
  | Root (name : string)
  | Sub (name : string) (parent : pytype).

Fixpoint mro (T : pytype) : list string :=
  match T with
  | Root n => [n]
  | Sub n p => n :: mro p
  end.

Fixpoint of_mro (l : list string) : option pytype :=
  match l with
  | [] => None
  | n :: l' =>
      match l' with
      | [] => Some (Root n)
      | _ :: _ => Sub n <$> of_mro l'
      end
  end.

Lemma of_mro_mro T : of_mro (mro T) = Some T.
Proof.
  induction T as [n | n p IH]; simpl; [done |].
  destruct (mro p) eqn:E; [by destruct p |].
  by rewrite IH.
Qed.

#[global] Instance pytype_eq_dec : EqDecision pytype.
Proof. solve_decision. Defined.

#[global] Instance pytype_countable : Countable pytype :=
  inj_countable mro of_mro of_mro_mro.

(** [issubclass(T, U)], and its strict version. *)
Fixpoint issubclass (T U : pytype) : bool :=
  bool_decide (T = U) ||
  match T with
  | Root _ => false
  | Sub _ p => issubclass p U
  end.

Definition strict_subclass (T U : pytype) : Prop :=
  issubclass T U = true ∧ T ≠ U.

(** ** Objects *)

Definition addr := nat.

(** [class Component: pass].  Instances compare by identity. *)
Record Component : Type := mkComponent {
  comp_id : nat;
  comp_type : pytype
}.

#[global] Instance Component_eq_dec : EqDecision Component.
Proof. solve_decision. Defined.

(** [class System], with its no-op [update].  Instances compare by
    identity. *)
Record System : Type := mkSystem {
  sys_id : nat;
  sys_type : pytype
}.

#[global] Instance System_eq_dec : EqDecision System.
Proof. solve_decision. Defined.

(** What a list of the type index can hold: a reference to an entity, or
    a component instance. *)
Inductive pyobj : Type :=
  | ObjEntity (e : addr)
  | ObjComponent (c : Component).

#[global] Instance pyobj_eq_dec : EqDecision pyobj.
Proof. solve_decision. Defined.

(** ** Exceptions and calls *)

Inductive exn : Type :=
  | ValueError
  | TypeError
  | AttributeError.

Inductive outcome (A : Type) : Type :=
  | Return (v : A)
  | Raise (e : exn).
Arguments Return {A} v.
Arguments Raise {A} e.

(** ** List primitives of Python *)

(** [x in l] *)
Definition py_in {A} `{EqDecision A} (x : A) (l : list A) : bool :=
  bool_decide (x ∈ l).

(** The list left by [l.remove(x)]: the first item equal to [x] is taken
    out.  [None] stands for the [ValueError] raised when there is no such
    item. *)
Fixpoint py_remove {A} `{EqDecision A} (x : A) (l : list A) : option (list A) :=
  match l with
  | [] => None
  | y :: l' =>
      if decide (x = y) then Some l'
      else cons y <$> py_remove x l'
  end.

(** [l.count(x)] *)
Definition py_count {A} `{EqDecision A} (x : A) (l : list A) : nat :=
  length (filter (λ y, y = x) l).

(** What the built-in [next] is given: a list is iterable but is not an
    iterator. *)
Inductive next_arg (A : Type) : Type :=
  | ArgList (l : list A)
  | ArgIterator (l : list A).
Arguments ArgList {A} l.
Arguments ArgIterator {A} l.

(** [next(it, None)]: the default is used only when an iterator is
    exhausted; anything that is not an iterator is a [TypeError]. *)
Definition py_next {A} (it : next_arg A) : outcome (option A) :=
  match it with
  | ArgList _ => Raise TypeError
  | ArgIterator [] => Return None
  | ArgIterator (x :: _) => Return (Some x)
  end.

(** ** Entity *)

Module Entity.

(** [self.components: Dict[Type[Component], Component] = {}] *)
Record t : Type := mk {
  components : gmap pytype Component
}.

Definition init : t := mk ∅.

Definition _has_component (self : t) (component_type : pytype) : bool :=
  bool_decide (is_Some (components self !! component_type)).

Definition _get_component (self : t) (component_type : pytype)
  : option Component :=
  components self !! component_type.

(** [self.components[type(component)] = component] *)
Definition _push_component (self : t) (component : Component) : t :=
  mk (<[comp_type component := component]> (components self)).

(** [self.components.pop(component_type, None)] *)
Definition _pop_component (self : t) (component_type : pytype) : t :=
  mk (delete component_type (components self)).

End Entity.

#[global] Instance Entity_inhabited : Inhabited Entity.t :=
  populate Entity.init.

(** ** World *)

(** The three attributes set by [World.__init__].  [components] is a
    [defaultdict(list)]; its lists hold whatever was appended to them. *)
Record World : Type := mkWorld {
  entities : list addr;
  components : gmap pytype (list pyobj);
  systems : list System
}.

(** A program state: the [Entity] objects allocated so far, the next free
    address, and the world [self]. *)
Record state : Type := mkState {
  heap : gmap addr Entity.t;
  next_addr : addr;
  self : World
}.

(** [World()] in an empty store. *)
Definition World_init : state := mkState ∅ 0 (mkWorld [] ∅ []).

(** *** The monad of calls *)

Definition M (A : Type) : Type := state → outcome A * state.

#[global] Instance M_ret : MRet M := λ A v st, (Return v, st).

#[global] Instance M_bind : MBind M := λ A B k m st,
  match m st with
  | (Return v, st') => k v st'
  | (Raise e, st') => (Raise e, st')
  end.

Definition raise {A} (e : exn) : M A := λ st, (Raise e, st).

Definition lift {A} (o : outcome A) : M A := λ st, (o, st).

Definition get_self : M World := λ st, (Return (self st), st).

Definition set_self (w : World) : M unit := λ st,
  (Return (), mkState (heap st) (next_addr st) w).

Definition set_entities (l : list addr) : M unit :=
  w ← get_self; set_self (mkWorld l (components w) (systems w)).

Definition set_components (m : gmap pytype (list pyobj)) : M unit :=
  w ← get_self; set_self (mkWorld (entities w) m (systems w)).

Definition set_systems (l : list System) : M unit :=
  w ← get_self; set_self (mkWorld (entities w) (components w) l).

(** [Entity()] *)
Definition Entity_new : M addr := λ st,
  (Return (next_addr st),
   mkState (<[next_addr st := Entity.init]> (heap st)) (S (next_addr st))
           (self st)).

(** Reading the object behind a reference. *)
Definition Entity_read (entity : addr) : M Entity.t := λ st,
  (Return (heap st !!! entity), st).

(** A method that mutates the object behind a reference. *)
Definition Entity_write (entity : addr) (f : Entity.t → Entity.t) : M unit :=
  λ st,
  (Return (),
   mkState (<[entity := f (heap st !!! entity)]> (heap st)) (next_addr st)
           (self st)).

(** [self.components[component_type]] on the [defaultdict]: a missing key
    is first bound to a new empty list. *)
Definition components_getitem (component_type : pytype) : M (list pyobj) :=
  w ← get_self;
  match components w !! component_type with
  | Some l => mret l
  | None =>
      set_components (<[component_type := []]> (components w));;
      mret []
  end.

(** An in-place update of the list bound to [component_type]. *)
Definition components_setlist (component_type : pytype) (l : list pyobj)
  : M unit :=
  w ← get_self; set_components (<[component_type := l]> (components w)).

(** [item._get_component(component_type)]: only [Entity] has the method. *)
Definition call_get_component (item : pyobj) (component_type : pytype)
  : M (option Component) :=
  match item with
  | ObjEntity e =>
      obj ← Entity_read e; mret (Entity._get_component obj component_type)
  | ObjComponent _ => raise AttributeError
  end.

(** A list comprehension whose element expression is a call. *)
Fixpoint comprehension {A B} (f : A → M B) (l : list A) : M (list B) :=
  match l with
  | [] => mret []
  | x :: l' => y ← f x; ys ← comprehension f l'; mret (y :: ys)
  end.

(** [any(l)] *)
Definition py_any (l : list bool) : bool := foldr orb false l.

(** *** The methods of [World] *)

Definition has_entity (entity : addr) : M bool :=
  w ← get_self; mret (py_in entity (entities w)).

Definition push_entity : M addr :=
  entity ← Entity_new;
  w ← get_self;
  set_entities (entities w ++ [entity]);;
  mret entity.

(** The body of the loop of [pop_entity] on one list of the index. *)
Definition pop_entity_bucket (entity : addr) (l : list pyobj) : list pyobj :=
  if py_in (ObjEntity entity) l
  then default l (py_remove (ObjEntity entity) l)
  else l.

Definition pop_entity (entity : addr) : M unit :=
  w ← get_self;
  match py_remove entity (entities w) with
  | None => raise ValueError
  | Some l =>
      set_entities l;;
      w ← get_self;
      set_components (pop_entity_bucket entity <$> components w)
  end.

Definition has_component (entity : addr) (component_type : pytype) : M bool :=
  l ← components_getitem component_type;
  mret (py_in (ObjEntity entity) l).

Definition get_components (component_type : pytype)
  : M (list (option Component)) :=
  l ← components_getitem component_type;
  comprehension (λ entity, call_get_component entity component_type) l.

Definition get_entities_by_component (component_type : pytype)
  : M (list pyobj) :=
  components_getitem component_type.

Definition get_component_by_entity (entity : addr) (component_type : pytype)
  : M (option Component) :=
  obj ← Entity_read entity;
  mret (Entity._get_component obj component_type).

Definition push_component (entity : addr) (component : Component) : M unit :=
  Entity_write entity (λ obj, Entity._push_component obj component);;
  l ← components_getitem (comp_type component);
  components_setlist (comp_type component) (l ++ [ObjComponent component]).

Definition pop_component (entity : addr) (component_type : pytype) : M unit :=
  Entity_write entity (λ obj, Entity._pop_component obj component_type);;
  l ← components_getitem component_type;
  if py_in (ObjEntity entity) l then
    l ← components_getitem component_type;
    match py_remove (ObjEntity entity) l with
    | None => raise ValueError
    | Some l' => components_setlist component_type l'
    end
  else mret ().

Definition has_system (system_type : pytype) : M bool :=
  w ← get_self;
  mret (py_any ((λ system, bool_decide (sys_type system = system_type))
                  <$> systems w)).

Definition get_system (system_type : pytype) : M (option System) :=
  w ← get_self;
  lift (py_next
          (ArgList (filter (λ system, sys_type system = system_type)
                           (systems w)))).

Definition push_system (system : System) : M unit :=
  w ← get_self; set_systems (systems w ++ [system]).

Definition pop_system (system_type : pytype) : M unit :=
  system ← get_system system_type;
  match system with
  | Some s =>
      w ← get_self;
      match py_remove s (systems w) with
      | None => raise ValueError
      | Some l => set_systems l
      end
  | None => mret ()
  end.

(** ** Example classes and objects *)

Definition ComponentT : pytype := Root "Component".
Definition Position : pytype := Sub "Position" ComponentT.
Definition Velocity : pytype := Sub "Velocity" ComponentT.
Definition SystemT : pytype := Root "System".
Definition Physics : pytype := Sub "Physics" SystemT.
Definition Gravity : pytype := Sub "Gravity" Physics.

(** ** Calls and reachable states *)

(** The public operations of [World]. *)
Inductive call : Type :=
  | CallHasEntity (entity : addr)
  | CallPushEntity
  | CallPopEntity (entity : addr)
  | CallHasComponent (entity : addr) (component_type : pytype)
  | CallGetComponents (component_type : pytype)
  | CallGetEntitiesByComponent (component_type : pytype)
  | CallGetComponentByEntity (entity : addr) (component_type : pytype)
  | CallPushComponent (entity : addr) (component : Component)
  | CallPopComponent (entity : addr) (component_type : pytype)
  | CallHasSystem (system_type : pytype)
  | CallGetSystem (system_type : pytype)
  | CallPushSystem (system : System)
  | CallPopSystem (system_type : pytype).

(** The state a call leaves behind, whether it returns or raises. *)
Definition after (c : call) (st : state) : state :=
  match c with
  | CallHasEntity e => (has_entity e st).2
  | CallPushEntity => (push_entity st).2
  | CallPopEntity e => (pop_entity e st).2
  | CallHasComponent e T => (has_component e T st).2
  | CallGetComponents T => (get_components T st).2
  | CallGetEntitiesByComponent T => (get_entities_by_component T st).2
  | CallGetComponentByEntity e T => (get_component_by_entity e T st).2
  | CallPushComponent e c => (push_component e c st).2
  | CallPopComponent e T => (pop_component e T st).2
  | CallHasSystem T => (has_system T st).2
  | CallGetSystem T => (get_system T st).2
  | CallPushSystem s => (push_system s st).2
  | CallPopSystem T => (pop_system T st).2
  end.

Definition after_all (cs : list call) (st : state) : state :=
  foldl (λ st c, after c st) st cs.

(** The states a fresh world can be brought to by public calls. *)
Inductive reachable : state → Prop :=
  | reachable_init : reachable World_init
  | reachable_call c st : reachable st → reachable (after c st).

(** The list bound to [T] in the index, empty when [T] is not a key. *)
Definition bucket (st : state) (T : pytype) : list pyobj :=
  default [] (components (self st) !! T).

Definition is_component (o : pyobj) : Prop :=
  match o with
  | ObjComponent _ => True
  | ObjEntity _ => False
  end.

(** What every reachable state satisfies. *)
Record inv (st : state) : Prop := mkInv {
  inv_nodup : NoDup (entities (self st));
  inv_alloc : ∀ e, e ∈ entities (self st) → e < next_addr st;
  inv_buckets : ∀ T l, components (self st) !! T = Some l → Forall is_component l
}.

(** The index after [self.components[T]] has been evaluated. *)
Definition materialise (T : pytype) (m : gmap pytype (list pyobj))
  : gmap pytype (list pyobj) :=
  match m !! T with
  | Some _ => m
  | None => <[T := []]> m
  end.

Definition touch (T : pytype) (st : state) : state :=
  mkState (heap st) (next_addr st)
          (mkWorld (entities (self st))
                   (materialise T (components (self st)))
                   (systems (self st))).

(** ** Example objects and states *)

Definition c_pos0 : Component := mkComponent 0 Position.
Definition c_pos1 : Component := mkComponent 1 Position.

(** [w = World(); e = w.push_entity(); w.push_component(e, Position())] *)
Definition st_attached : state :=
  after_all [CallPushEntity; CallPushComponent 0 c_pos0] World_init.

Definition s_phys : System := mkSystem 0 Physics.
Definition s_grav : System := mkSystem 1 Gravity.

(** [w = World(); w.push_system(Physics())] *)
Definition st_system : state := after (CallPushSystem s_phys) World_init.

(** The calls that only ask: they are written to return a value and
    assign to nothing. *)
Definition is_query (c : call) : bool :=
  match c with
  | CallHasEntity _ | CallHasComponent _ _ | CallGetComponents _
  | CallGetEntitiesByComponent _ | CallGetComponentByEntity _ _
  | CallHasSystem _ | CallGetSystem _ => true
  | _ => false
  end.

(** A state that the calls do not produce: entity [0] carries [c_pos0]
    and the list of the index for [Position] holds the entity itself, as
    after [w.components[Position].append(e)]. *)
Definition st_indexed : state :=
  mkState {[0 := Entity._push_component Entity.init c_pos0]} 1
          (mkWorld [0] {[Position := [ObjEntity 0]]} []).

Definition c_vel0 : Component := mkComponent 2 Velocity.

(** A state whose index lists entities, as [ecs.py] means it to: entity
    [0] carries a [Position] and a [Velocity], entity [1] a [Position],
    and each is listed once under the classes it carries. *)
Definition st_scene : state :=
  mkState
    (<[0 := Entity._push_component
              (Entity._push_component Entity.init c_pos0) c_vel0]>
       (<[1 := Entity._push_component Entity.init c_pos1]> ∅))
    2
    (mkWorld [0; 1]
             (<[Position := [ObjEntity 0; ObjEntity 1]]>
                (<[Velocity := [ObjEntity 0]]> ∅))
             []).

(** ** Unfolding the methods *)

Ltac run :=
  cbv [mbind M_bind mret M_ret get_self set_self set_entities set_components
       set_systems raise lift Entity_read Entity_write Entity_new
       components_getitem components_setlist];
  cbn [self heap next_addr entities components systems fst snd].

Lemma materialise_lookup_default T m T' :
  default [] (materialise T m !! T') = default [] (m !! T').
Proof.
  unfold materialise. destruct (m !! T) eqn:E; [done |].
  destruct (decide (T = T')) as [<- | Hne].
  - by rewrite lookup_insert_eq, E.
  - by rewrite lookup_insert_ne.
Qed.

Lemma materialise_lookup_Some T m T' l :
  materialise T m !! T' = Some l → m !! T' = Some l ∨ l = [].
Proof.
  unfold materialise. destruct (m !! T) eqn:E; [by left |].
  destruct (decide (T = T')) as [<- | Hne].
  - rewrite lookup_insert_eq. intros [= <-]. by right.
  - rewrite lookup_insert_ne by done. by left.
Qed.

Lemma materialise_lookup_eq T m :
  materialise T m !! T = Some (default [] (m !! T)).
Proof.
  unfold materialise. destruct (m !! T) eqn:E; simpl.
  - by rewrite E.
  - by rewrite lookup_insert_eq.
Qed.

Lemma bind_eq {A B} (m : M A) (k : A → M B) st :
  (m ≫= k) st =
  match m st with
  | (Return v, st') => k v st'
  | (Raise e, st') => (Raise e, st')
  end.
Proof. reflexivity. Qed.

Lemma bucket_touch T st T' : bucket (touch T st) T' = bucket st T'.
Proof. apply materialise_lookup_default. Qed.

Lemma components_getitem_eq T st :
  components_getitem T st = (Return (bucket st T), touch T st).
Proof.
  destruct st as [h n [es cs ss]]. unfold bucket, touch, materialise. run.
  by destruct (cs !! T).
Qed.

Lemma has_entity_eq e st :
  has_entity e st = (Return (py_in e (entities (self st))), st).
Proof. reflexivity. Qed.

Lemma push_entity_eq st :
  push_entity st =
  (Return (next_addr st),
   mkState (<[next_addr st := Entity.init]> (heap st)) (S (next_addr st))
           (mkWorld (entities (self st) ++ [next_addr st])
                    (components (self st)) (systems (self st)))).
Proof. reflexivity. Qed.

Lemma pop_entity_eq e st :
  pop_entity e st =
  match py_remove e (entities (self st)) with
  | None => (Raise ValueError, st)
  | Some l =>
      (Return (),
       mkState (heap st) (next_addr st)
               (mkWorld l (pop_entity_bucket e <$> components (self st))
                        (systems (self st))))
  end.
Proof. unfold pop_entity. run. by destruct (py_remove _ _). Qed.

Lemma has_component_eq e T st :
  has_component e T st =
  (Return (py_in (ObjEntity e) (bucket st T)), touch T st).
Proof.
  unfold has_component. by rewrite bind_eq, components_getitem_eq.
Qed.

Lemma get_entities_by_component_eq T st :
  get_entities_by_component T st = (Return (bucket st T), touch T st).
Proof. apply components_getitem_eq. Qed.

Lemma get_component_by_entity_eq e T st :
  get_component_by_entity e T st =
  (Return (Entity._get_component (heap st !!! e) T), st).
Proof. reflexivity. Qed.

Lemma get_components_eq T st :
  get_components T st =
  comprehension (λ entity, call_get_component entity T) (bucket st T)
                (touch T st).
Proof.
  unfold get_components. by rewrite bind_eq, components_getitem_eq.
Qed.

Lemma push_component_eq e c st :
  push_component e c st =
  (Return (),
   mkState (<[e := Entity._push_component (heap st !!! e) c]> (heap st))
           (next_addr st)
           (mkWorld (entities (self st))
                    (<[comp_type c := bucket st (comp_type c) ++ [ObjComponent c]]>
                       (materialise (comp_type c) (components (self st))))
                    (systems (self st)))).
Proof.
  destruct st as [h n [es cs ss]]. unfold push_component, bucket, materialise.
  run. by destruct (cs !! comp_type c).
Qed.

Lemma pop_component_eq e T st :
  pop_component e T st =
  let h := <[e := Entity._pop_component (heap st !!! e) T]> (heap st) in
  if py_in (ObjEntity e) (bucket st T) then
    match py_remove (ObjEntity e) (bucket st T) with
    | None =>
        (Raise ValueError,
         mkState h (next_addr st)
                 (mkWorld (entities (self st))
                          (materialise T (components (self st)))
                          (systems (self st))))
    | Some l =>
        (Return (),
         mkState h (next_addr st)
                 (mkWorld (entities (self st))
                          (<[T := l]> (materialise T (components (self st))))
                          (systems (self st))))
    end
  else
    (Return (),
     mkState h (next_addr st)
             (mkWorld (entities (self st))
                      (materialise T (components (self st)))
                      (systems (self st)))).
Proof.
  destruct st as [h n [es cs ss]]. unfold pop_component, bucket, materialise.
  run. destruct (cs !! T) as [l |] eqn:E; simpl.
  - destruct (py_in _ l); [| done]. cbn. rewrite E.
    by destruct (py_remove _ l).
  - done.
Qed.

Lemma has_system_eq T st :
  has_system T st =
  (Return (py_any ((λ system, bool_decide (sys_type system = T))
                     <$> systems (self st))), st).
Proof. reflexivity. Qed.

Lemma get_system_eq T st : get_system T st = (Raise TypeError, st).
Proof. reflexivity. Qed.

Lemma push_system_eq s st :
  push_system s st =
  (Return (),
   mkState (heap st) (next_addr st)
           (mkWorld (entities (self st)) (components (self st))
                    (systems (self st) ++ [s]))).
Proof. reflexivity. Qed.

Lemma pop_system_eq T st : pop_system T st = (Raise TypeError, st).
Proof. reflexivity. Qed.

(** ** Facts about the list primitives *)

Section list_primitives.
Context {A : Type} `{EqDecision A}.
Implicit Types (x y : A) (l : list A).

Lemma py_in_true x l : py_in x l = true ↔ x ∈ l.
Proof. unfold py_in. apply bool_decide_eq_true. Qed.

Lemma py_in_false x l : py_in x l = false ↔ x ∉ l.
Proof. unfold py_in. apply bool_decide_eq_false. Qed.

Lemma py_remove_None x l : py_remove x l = None ↔ x ∉ l.
Proof.
  induction l as [| y l IH]; simpl.
  - split; [intros _; apply not_elem_of_nil | done].
  - destruct (decide (x = y)) as [-> | Hne].
    + split; [done | intros H; destruct H; left].
    + rewrite fmap_None, IH, not_elem_of_cons. naive_solver.
Qed.

Lemma py_remove_is_Some x l : x ∈ l → is_Some (py_remove x l).
Proof.
  intros Hin. destruct (py_remove x l) eqn:E; [by eexists |].
  by apply py_remove_None in E.
Qed.

Lemma py_remove_sub x l l' y : py_remove x l = Some l' → y ∈ l' → y ∈ l.
Proof.
  revert l'. induction l as [| z l IH]; intros l'; simpl; [done |].
  destruct (decide (x = z)) as [-> | Hne].
  - intros [= <-] Hy. by right.
  - destruct (py_remove x l) as [l0 |]; simpl; [| done].
    intros [= <-]. rewrite !elem_of_cons. naive_solver.
Qed.

Lemma py_remove_other x l l' y :
  py_remove x l = Some l' → y ≠ x → y ∈ l → y ∈ l'.
Proof.
  revert l'. induction l as [| z l IH]; intros l'; simpl; [done |].
  destruct (decide (x = z)) as [-> | Hne].
  - intros [= <-] Hy. rewrite elem_of_cons. naive_solver.
  - destruct (py_remove x l) as [l0 |]; simpl; [| done].
    intros [= <-] Hy. rewrite !elem_of_cons. naive_solver.
Qed.

Lemma py_remove_NoDup x l l' :
  py_remove x l = Some l' → NoDup l → NoDup l' ∧ x ∉ l'.
Proof.
  revert l'. induction l as [| z l IH]; intros l'; simpl; [done |].
  rewrite NoDup_cons. destruct (decide (x = z)) as [-> | Hne].
  - by intros [= <-] [? ?].
  - destruct (py_remove x l) as [l0 |] eqn:E; simpl; [| done].
    intros [= <-] [Hz Hl]. destruct (IH l0 eq_refl Hl) as [Hnd Hx].
    rewrite NoDup_cons, not_elem_of_cons. split_and!; try done.
    intros Hz'. apply Hz. by eapply py_remove_sub.
Qed.

Lemma py_remove_Forall (P : A → Prop) x l l' :
  py_remove x l = Some l' → Forall P l → Forall P l'.
Proof.
  intros Hr. rewrite !Forall_forall. intros HP y Hy.
  apply HP. by eapply py_remove_sub.
Qed.
End list_primitives.

Lemma pop_entity_bucket_sub e l o : o ∈ pop_entity_bucket e l → o ∈ l.
Proof.
  unfold pop_entity_bucket. destruct (py_in _ l); [| done].
  destruct (py_remove _ l) eqn:E; simpl; [| done]. by eapply py_remove_sub.
Qed.

Lemma pop_entity_bucket_absent e l :
  ObjEntity e ∉ l → pop_entity_bucket e l = l.
Proof.
  intros H. unfold pop_entity_bucket.
  by rewrite (proj2 (py_in_false _ _) H).
Qed.

Lemma pop_entity_bucket_NoDup e l :
  NoDup l → ObjEntity e ∉ pop_entity_bucket e l.
Proof.
  intros Hnd. unfold pop_entity_bucket.
  destruct (py_in _ l) eqn:Hin; [| by apply py_in_false].
  apply py_in_true, py_remove_is_Some in Hin. destruct Hin as [l' E].
  rewrite E. simpl. by eapply py_remove_NoDup.
Qed.

Lemma is_component_not_entity e l : Forall is_component l → ObjEntity e ∉ l.
Proof. rewrite Forall_forall. intros H Hin. exact (H _ Hin). Qed.

Lemma py_any_true (l : list bool) : py_any l = true ↔ true ∈ l.
Proof.
  induction l as [| b l IH]; simpl.
  - split; [done | intros H; by apply not_elem_of_nil in H].
  - rewrite orb_true_iff, IH, elem_of_cons. naive_solver.
Qed.

(** ** The comprehension of [get_components] *)

Lemma comprehension_state T l st :
  (comprehension (λ entity, call_get_component entity T) l st).2 = st.
Proof.
  induction l as [| o l IH]; simpl; [done |].
  rewrite bind_eq. destruct o as [e | c]; simpl; [| done].
  rewrite bind_eq.
  by destruct (comprehension _ l st) as [[v | x] st'].
Qed.

Lemma comprehension_component T c l st :
  comprehension (λ entity, call_get_component entity T)
                (ObjComponent c :: l) st = (Raise AttributeError, st).
Proof. reflexivity. Qed.

Lemma comprehension_entities T (es : list addr) st :
  comprehension (λ entity, call_get_component entity T)
                (ObjEntity <$> es) st =
  (Return ((λ e, Entity._get_component (heap st !!! e) T) <$> es), st).
Proof.
  induction es as [| e es IH]; [done |].
  rewrite !fmap_cons. cbn [comprehension].
  rewrite bind_eq. cbn [call_get_component].
  rewrite bind_eq. cbn [Entity_read]. unfold mret at 1, M_ret at 1.
  by rewrite bind_eq, IH.
Qed.

(** ** The invariant of reachable states *)

Lemma inv_init : inv World_init.
Proof.
  split; simpl.
  - apply NoDup_nil_2.
  - intros e H. by apply not_elem_of_nil in H.
  - intros T l H. by rewrite lookup_empty in H.
Qed.

Lemma bucket_components st T :
  inv st → Forall is_component (bucket st T).
Proof.
  intros [_ _ Hb]. unfold bucket.
  destruct (components (self st) !! T) as [l |] eqn:E; simpl; [eauto | done].
Qed.

Lemma bucket_no_entity st T e : inv st → ObjEntity e ∉ bucket st T.
Proof. intros H. by apply is_component_not_entity, bucket_components. Qed.

Lemma inv_touch T st : inv st → inv (touch T st).
Proof.
  intros [Hnd Ha Hb]. split; simpl; [done | done |].
  intros T' l [H | ->]%materialise_lookup_Some; [eauto | done].
Qed.

Lemma inv_push_entity st : inv st → inv (push_entity st).2.
Proof.
  intros [Hnd Ha Hb]. rewrite push_entity_eq. split; simpl; [| | done].
  - apply NoDup_app. split_and!; [done | | apply NoDup_singleton].
    intros e He ->%list_elem_of_singleton. apply Ha in He. lia.
  - intros e [He | ->%list_elem_of_singleton]%elem_of_app; [| lia].
    apply Ha in He. lia.
Qed.

Lemma inv_pop_entity e st : inv st → inv (pop_entity e st).2.
Proof.
  intros Hinv. rewrite pop_entity_eq.
  destruct (py_remove e (entities (self st))) as [l |] eqn:E; [| done].
  destruct Hinv as [Hnd Ha Hb]. split; simpl.
  - by eapply py_remove_NoDup.
  - intros e' He'. apply Ha. by eapply py_remove_sub.
  - intros T l'. rewrite lookup_fmap_Some. intros (l0 & <- & Hl0).
    apply Forall_forall. intros o Ho%pop_entity_bucket_sub.
    revert o Ho. apply Forall_forall. eauto.
Qed.

Lemma inv_push_component e c st : inv st → inv (push_component e c st).2.
Proof.
  intros Hinv. rewrite push_component_eq.
  pose proof (bucket_components st (comp_type c) Hinv) as Hbk.
  destruct Hinv as [Hnd Ha Hb]. split; simpl; [done | done |].
  intros T l. destruct (decide (comp_type c = T)) as [<- | Hne].
  - rewrite lookup_insert_eq. intros [= <-].
    apply Forall_app. split; [done |]. by apply Forall_singleton.
  - rewrite lookup_insert_ne by done.
    intros [H | ->]%materialise_lookup_Some; [eauto | done].
Qed.

Lemma inv_pop_component e T st : inv st → inv (pop_component e T st).2.
Proof.
  intros Hinv. rewrite pop_component_eq.
  pose proof (bucket_components st T Hinv) as Hbk.
  destruct Hinv as [Hnd Ha Hb].
  assert (∀ T' l, materialise T (components (self st)) !! T' = Some l →
                  Forall is_component l) as Hm.
  { intros T' l [H | ->]%materialise_lookup_Some; [eauto | done]. }
  cbv zeta. destruct (py_in _ _); [| by split].
  destruct (py_remove _ _) as [l' |] eqn:E; [| by split].
  split; simpl; [done | done |].
  intros T' l. destruct (decide (T = T')) as [<- | Hne].
  - rewrite lookup_insert_eq. intros [= <-]. by eapply py_remove_Forall.
  - rewrite lookup_insert_ne by done. eauto.
Qed.

Lemma inv_after c st : inv st → inv (after c st).
Proof.
  intros Hinv. destruct c; cbn [after].
  - done.
  - by apply inv_push_entity.
  - by apply inv_pop_entity.
  - rewrite has_component_eq. by apply inv_touch.
  - rewrite get_components_eq, comprehension_state. by apply inv_touch.
  - rewrite get_entities_by_component_eq. by apply inv_touch.
  - done.
  - by apply inv_push_component.
  - by apply inv_pop_component.
  - done.
  - done.
  - rewrite push_system_eq. by destruct Hinv.
  - done.
Qed.

Lemma reachable_inv st : reachable st → inv st.
Proof.
  induction 1 as [| c st _ IH]; [apply inv_init | by apply inv_after].
Qed.

Lemma reachable_after_all cs st : reachable st → reachable (after_all cs st).
Proof.
  revert st. induction cs as [| c cs IH]; intros st H; simpl; [done |].
  apply IH. by constructor.
Qed.

(** ** Attaching a component *)

Lemma st_attached_reachable : reachable st_attached.
Proof. apply reachable_after_all, reachable_init. Qed.

(** In a reachable state the index never lists an entity, so
    [has_component] answers [False] whatever was attached. *)
Lemma has_component_reachable st e T :
  reachable st → (has_component e T st).1 = Return false.
Proof.
  intros Hr%reachable_inv. rewrite has_component_eq. simpl. f_equal.
  by apply py_in_false, bucket_no_entity.
Qed.

(** What [push_component] does to the entity and to the index. *)
Lemma push_component_effect st e c :
  ∃ st', push_component e c st = (Return (), st') ∧
    (get_component_by_entity e (comp_type c) st').1 = Return (Some c) ∧
    bucket st' (comp_type c) = bucket st (comp_type c) ++ [ObjComponent c].
Proof.
  eexists. split; [apply push_component_eq |].
  rewrite get_component_by_entity_eq. unfold bucket. simpl.
  rewrite lookup_total_insert_eq. unfold Entity._get_component. simpl.
  by rewrite !lookup_insert_eq.
Qed.

(** C1 (the code departs from the claim).  After creating an entity and
    attaching a [Position] to it, [get_component_by_entity] returns the
    instance, but [has_component] returns [False] and the list returned
    by [get_entities_by_component] holds the component, not the entity:
    [push_component] appends [component] where the entity was meant. *)
Theorem push_component_appends_component :
  (push_entity World_init).1 = Return 0 ∧
  (has_component 0 Position st_attached).1 = Return false ∧
  (get_component_by_entity 0 Position st_attached).1 = Return (Some c_pos0) ∧
  (get_entities_by_component Position st_attached).1
    = Return [ObjComponent c_pos0].
Proof. vm_compute. by repeat split. Qed.

(** C2 (the code departs from the claim).  In the reachable state
    [st_attached] entity [0] owns a [Position], yet it is not in the list
    of the index for [Position]. *)
Theorem index_misses_owner :
  reachable st_attached ∧
  Entity._has_component (heap st_attached !!! 0) Position = true ∧
  (ObjEntity 0 ∉ bucket st_attached Position) ∧
  ¬ (ObjEntity 0 ∈ bucket st_attached Position ↔
     is_Some (Entity.components (heap st_attached !!! 0) !! Position)).
Proof.
  assert (ObjEntity 0 ∉ bucket st_attached Position) as Hnot.
  { apply py_in_false. by vm_compute. }
  assert (Entity._has_component (heap st_attached !!! 0) Position = true)
    as Hhas by (by vm_compute).
  split_and!; [apply st_attached_reachable | done | done |].
  intros [_ Hback]. apply Hnot, Hback.
  by apply bool_decide_eq_true in Hhas.
Qed.

(** C4 (the code departs from the claim).  Once a component was attached,
    [get_components] raises [AttributeError]: the items of the list are
    components, which have no [_get_component].  It still raises after
    the component was detached, when no entity carries the type. *)
Theorem get_components_raises :
  (get_entities_by_component Position st_attached).1
    = Return [ObjComponent c_pos0] ∧
  (get_components Position st_attached).1 = Raise AttributeError ∧
  (get_components Position (after (CallPopComponent 0 Position) st_attached)).1
    = Raise AttributeError.
Proof. vm_compute. by split_and!. Qed.

(** [get_components] on a type nothing was attached to. *)
Lemma get_components_empty st T :
  bucket st T = [] → (get_components T st).1 = Return [].
Proof. intros H. rewrite get_components_eq, H. done. Qed.

(** [get_components] in any reachable state: empty list or error. *)
Lemma get_components_reachable st T :
  reachable st →
  (get_components T st).1 =
  if decide (bucket st T = []) then Return [] else Raise AttributeError.
Proof.
  intros Hr%reachable_inv. rewrite get_components_eq.
  pose proof (bucket_components st T Hr) as Hb.
  destruct (bucket st T) as [| o l]; [done |].
  apply Forall_cons in Hb as [Ho _]. by destruct o.
Qed.

(** C5 (the code departs from the claim).  Attaching a second [Position]
    to the same entity replaces the stored instance, and the list of the
    index grows from one item to two. *)
Theorem push_component_twice_grows_bucket :
  let st2 := after (CallPushComponent 0 c_pos1) st_attached in
  (get_component_by_entity 0 Position st_attached).1 = Return (Some c_pos0) ∧
  (get_component_by_entity 0 Position st2).1 = Return (Some c_pos1) ∧
  (get_entities_by_component Position st_attached).1
    = Return [ObjComponent c_pos0] ∧
  (get_entities_by_component Position st2).1
    = Return [ObjComponent c_pos0; ObjComponent c_pos1].
Proof. vm_compute. by repeat split. Qed.

(** ** Counting the occurrences of an item *)

Section counting.
Context {A : Type} `{EqDecision A}.
Implicit Types (x y : A) (l : list A).

Lemma py_count_cons x y l :
  py_count x (y :: l) = if decide (y = x) then S (py_count x l) else py_count x l.
Proof.
  unfold py_count. rewrite filter_cons. by destruct (decide (y = x)).
Qed.

Lemma py_count_zero x l : py_count x l = 0 ↔ x ∉ l.
Proof.
  induction l as [| y l IH]; [by split; [intros _; apply not_elem_of_nil |] |].
  rewrite py_count_cons, not_elem_of_cons.
  destruct (decide (y = x)) as [-> | Hne]; [naive_solver |].
  rewrite IH. naive_solver.
Qed.

Lemma py_remove_count x l l' :
  py_remove x l = Some l' → py_count x l = S (py_count x l').
Proof.
  revert l'. induction l as [| y l IH]; intros l'; simpl; [done |].
  destruct (decide (x = y)) as [-> | Hne].
  - intros [= <-]. by rewrite py_count_cons, decide_True.
  - destruct (py_remove x l) as [l0 |]; simpl; [| done].
    intros [= <-]. rewrite !py_count_cons, !decide_False by done. by apply IH.
Qed.

Lemma py_remove_once x l l' :
  py_remove x l = Some l' → py_count x l ≤ 1 → x ∉ l'.
Proof.
  intros Hr Hc. apply py_count_zero. apply py_remove_count in Hr. lia.
Qed.

Lemma NoDup_py_count x l : NoDup l → py_count x l ≤ 1.
Proof.
  induction 1 as [| y l Hy _ IH]; [unfold py_count; simpl; lia |].
  rewrite py_count_cons. destruct (decide (y = x)) as [-> | _]; [| done].
  apply py_count_zero in Hy. lia.
Qed.
End counting.

Lemma pop_entity_bucket_once e l :
  py_count (ObjEntity e) l ≤ 1 → ObjEntity e ∉ pop_entity_bucket e l.
Proof.
  intros Hc. unfold pop_entity_bucket.
  destruct (py_in _ l) eqn:Hin; [| by apply py_in_false].
  apply py_in_true, py_remove_is_Some in Hin. destruct Hin as [l' E].
  rewrite E. simpl. by eapply py_remove_once.
Qed.

Lemma pop_entity_bucket_other e l o :
  o ≠ ObjEntity e → o ∈ l → o ∈ pop_entity_bucket e l.
Proof.
  intros Hne Ho. unfold pop_entity_bucket.
  destruct (py_in _ l) eqn:Hin; [| done].
  apply py_in_true, py_remove_is_Some in Hin. destruct Hin as [l' E].
  rewrite E. simpl. by eapply py_remove_other.
Qed.

(** In a reachable state no entity is listed in the index, and every
    entity is at most once in the entity list. *)
Lemma reachable_py_count st e T :
  reachable st →
  py_count e (entities (self st)) ≤ 1 ∧
  py_count (ObjEntity e) (bucket st T) = 0.
Proof.
  intros Hr%reachable_inv. split.
  - apply NoDup_py_count. by destruct Hr.
  - by apply py_count_zero, bucket_no_entity.
Qed.

(** ** Detaching a component *)

(** [pop_component] takes one occurrence of the entity out of the list
    for [T], in any state. *)
Lemma pop_component_count st entity T :
  py_count (ObjEntity entity) (bucket (pop_component entity T st).2 T)
  = pred (py_count (ObjEntity entity) (bucket st T)).
Proof.
  rewrite pop_component_eq. cbv zeta.
  destruct (py_in _ (bucket st T)) eqn:Hin.
  - apply py_in_true, py_remove_is_Some in Hin. destruct Hin as [l E].
    rewrite E. unfold bucket at 1. simpl. rewrite lookup_insert_eq. simpl.
    by rewrite (py_remove_count _ _ _ E).
  - unfold bucket at 1. simpl. rewrite materialise_lookup_default.
    apply py_in_false, py_count_zero in Hin. fold (bucket st T).
    by rewrite Hin.
Qed.

(** C6.  For a live entity listed at most once under [T] (as in every
    reachable state), [pop_component] returns; afterwards
    [get_component_by_entity] returns [None], the entity is not in the
    list returned by [get_entities_by_component], and the other items of
    that list are those it had. *)
Theorem pop_component_detaches st entity T :
  entity ∈ entities (self st) →
  py_count (ObjEntity entity) (bucket st T) ≤ 1 →
  ∃ st', pop_component entity T st = (Return (), st') ∧
    (get_component_by_entity entity T st').1 = Return None ∧
    ∃ l, (get_entities_by_component T st').1 = Return l ∧
         (ObjEntity entity ∉ l) ∧
         ∀ o, o ≠ ObjEntity entity → (o ∈ l ↔ o ∈ bucket st T).
Proof.
  intros _ Hone. rewrite pop_component_eq. cbv zeta.
  assert (∀ h m, (get_component_by_entity entity T
            (mkState (<[entity := Entity._pop_component (heap st !!! entity) T]> h)
                     (next_addr st) m)).1 = Return None) as Hget.
  { intros h m. rewrite get_component_by_entity_eq. simpl.
    rewrite lookup_total_insert_eq. unfold Entity._get_component. simpl.
    by rewrite lookup_delete_eq. }
  destruct (py_in _ (bucket st T)) eqn:Hin.
  - apply py_in_true in Hin.
    destruct (py_remove_is_Some _ _ Hin) as [l' E]. rewrite E.
    eexists. split; [done |]. split; [apply Hget |].
    rewrite get_entities_by_component_eq. eexists. split; [done |].
    unfold bucket at 1 2. simpl. rewrite lookup_insert_eq. simpl. split.
    + by eapply py_remove_once.
    + intros o Hne. split; [by eapply py_remove_sub |].
      by eapply py_remove_other.
  - apply py_in_false in Hin.
    eexists. split; [done |]. split; [apply Hget |].
    rewrite get_entities_by_component_eq. eexists. split; [done |].
    unfold bucket at 1 2. simpl. rewrite materialise_lookup_default.
    by split.
Qed.

Lemma pop_component_detaches_witness :
  ∃ st', pop_component 0 Position st_scene = (Return (), st') ∧
    (get_component_by_entity 0 Position st').1 = Return None ∧
    ∃ l, (get_entities_by_component Position st').1 = Return l ∧
         (ObjEntity 0 ∉ l) ∧
         ∀ o, o ≠ ObjEntity 0 → (o ∈ l ↔ o ∈ bucket st_scene Position).
Proof.
  apply (pop_component_detaches st_scene 0 Position).
  - vm_compute. apply list_elem_of_here.
  - vm_compute. lia.
Defined.

(** ** Destroying an entity *)

(** C7.  For a live entity that is once in the entity list and at most
    once in each list of the index (as in every reachable state),
    [pop_entity] returns; afterwards [has_entity] returns [False] and the
    other entities are still live, and for every component type the
    entity is not in the list returned by [get_entities_by_component],
    whose other items are those it had. *)
Theorem pop_entity_removes st entity :
  entity ∈ entities (self st) →
  py_count entity (entities (self st)) ≤ 1 →
  (∀ T, py_count (ObjEntity entity) (bucket st T) ≤ 1) →
  ∃ st', pop_entity entity st = (Return (), st') ∧
    (has_entity entity st').1 = Return false ∧
    (∀ e, e ≠ entity → (e ∈ entities (self st') ↔ e ∈ entities (self st))) ∧
    ∀ T, ∃ l, (get_entities_by_component T st').1 = Return l ∧
              (ObjEntity entity ∉ l) ∧
              ∀ o, o ≠ ObjEntity entity → (o ∈ l ↔ o ∈ bucket st T).
Proof.
  intros Hin Hones Hone. rewrite pop_entity_eq.
  destruct (py_remove_is_Some _ _ Hin) as [l' E]. rewrite E.
  eexists. split; [done |]. split_and!.
  - rewrite has_entity_eq. simpl. f_equal.
    by eapply py_in_false, py_remove_once.
  - intros e Hne. simpl. split; [by eapply py_remove_sub |].
    by eapply py_remove_other.
  - intros T. rewrite get_entities_by_component_eq. eexists. split; [done |].
    unfold bucket at 1 2. simpl. rewrite lookup_fmap.
    specialize (Hone T). unfold bucket in *.
    destruct (components (self st) !! T) as [l |]; simpl in *.
    + split; [by apply pop_entity_bucket_once |].
      intros o Hne. split; [apply pop_entity_bucket_sub |].
      by apply pop_entity_bucket_other.
    + split; [apply not_elem_of_nil | done].
Qed.

Lemma st_scene_listed_once T : py_count (ObjEntity 0) (bucket st_scene T) ≤ 1.
Proof.
  unfold bucket, st_scene. simpl.
  destruct (decide (T = Position)) as [-> | HP].
  { rewrite lookup_insert_eq. vm_compute. lia. }
  rewrite lookup_insert_ne by done.
  destruct (decide (T = Velocity)) as [-> | HV].
  { rewrite lookup_insert_eq. vm_compute. lia. }
  rewrite lookup_insert_ne, lookup_empty by done. unfold py_count. simpl. lia.
Defined.

Lemma pop_entity_removes_witness :
  ∃ st', pop_entity 0 st_scene = (Return (), st') ∧
    (has_entity 0 st').1 = Return false ∧
    (∀ e, e ≠ 0 → (e ∈ entities (self st') ↔ e ∈ entities (self st_scene))) ∧
    ∀ T, ∃ l, (get_entities_by_component T st').1 = Return l ∧
              (ObjEntity 0 ∉ l) ∧
              ∀ o, o ≠ ObjEntity 0 → (o ∈ l ↔ o ∈ bucket st_scene T).
Proof.
  apply (pop_entity_removes st_scene 0).
  - vm_compute. apply list_elem_of_here.
  - vm_compute. lia.
  - apply st_scene_listed_once.
Defined.

(** What the two calls leave of the lists of [st_scene]. *)
Lemma st_scene_lists :
  (get_entities_by_component Position (pop_component 0 Position st_scene).2).1
    = Return [ObjEntity 1] ∧
  (get_entities_by_component Velocity (pop_component 0 Position st_scene).2).1
    = Return [ObjEntity 0] ∧
  (get_entities_by_component Position (pop_entity 0 st_scene).2).1
    = Return [ObjEntity 1] ∧
  (get_entities_by_component Velocity (pop_entity 0 st_scene).2).1
    = Return [] ∧
  entities (self (pop_entity 0 st_scene).2) = [1].
Proof. vm_compute. by split_and!. Qed.

(** ** Removing what is not there *)

(** [pop_entity] of an entity that is not in the list raises
    [ValueError] and leaves the state as it was. *)
Lemma pop_entity_not_live st entity :
  entity ∉ entities (self st) →
  pop_entity entity st = (Raise ValueError, st).
Proof.
  intros H%py_remove_None. by rewrite pop_entity_eq, H.
Qed.

(** [pop_component] of a type the entity does not carry returns; the
    entity, the list of entities, the systems and every list of the index
    are as before (the index may have gained an empty list for [T]). *)
Lemma pop_component_absent st entity T :
  is_Some (heap st !! entity) →
  Entity._has_component (heap st !!! entity) T = false →
  ObjEntity entity ∉ bucket st T →
  ∃ st', pop_component entity T st = (Return (), st') ∧
    heap st' = heap st ∧
    entities (self st') = entities (self st) ∧
    systems (self st') = systems (self st) ∧
    ∀ T', bucket st' T' = bucket st T'.
Proof.
  intros [obj Hobj] Hno Hnot. rewrite pop_component_eq. cbv zeta.
  rewrite (proj2 (py_in_false _ _) Hnot).
  eexists. split; [done |]. simpl. split_and!; [| done | done |].
  - rewrite (lookup_total_correct _ _ _ Hobj) in *.
    apply insert_id. rewrite Hobj. f_equal.
    destruct obj as [m]. unfold Entity._pop_component. simpl. f_equal.
    symmetry. apply delete_id. unfold Entity._has_component in Hno. simpl in Hno.
    apply bool_decide_eq_false in Hno.
    by apply eq_None_not_Some.
  - intros T'. unfold bucket. simpl. apply materialise_lookup_default.
Qed.

(** ** Systems *)

(** The systems of [st] whose class is exactly [S]. *)
Lemma has_system_true st S :
  (has_system S st).1 = Return true ↔
  ∃ s, s ∈ systems (self st) ∧ sys_type s = S.
Proof.
  rewrite has_system_eq. simpl. split.
  - intros [= H]. apply py_any_true, list_elem_of_fmap in H.
    destruct H as (s & Hs & Hin). exists s. split; [done |].
    symmetry in Hs. by apply bool_decide_eq_true in Hs.
  - intros (s & Hin & Hs). f_equal. apply py_any_true, list_elem_of_fmap.
    exists s. split; [| done]. symmetry. by apply bool_decide_eq_true.
Qed.

Lemma push_system_has_system st s :
  (has_system (sys_type s) (push_system s st).2).1 = Return true.
Proof.
  apply has_system_true. exists s. rewrite push_system_eq. simpl.
  split; [| done]. apply elem_of_app. right. apply list_elem_of_here.
Qed.

(** C3 (the code departs from the claim).  [get_system] raises
    [TypeError] in every state and for every class: [next] is applied to
    a list, which is not an iterator. *)
Theorem get_system_always_raises st S :
  get_system S st = (Raise TypeError, st).
Proof. reflexivity. Qed.

(** C8 (the code departs from the claim).  [pop_system] of a class no
    system has does not return: in a fresh world it raises [TypeError]. *)
Theorem pop_system_unregistered_raises :
  (has_system Physics World_init).1 = Return false ∧
  pop_system Physics World_init = (Raise TypeError, World_init).
Proof. split; reflexivity. Qed.

(** C9 (the code departs from the claim).  With exactly one [Physics]
    system registered, [has_system] returns [True], but [pop_system]
    raises [TypeError] and the system stays registered. *)
Theorem pop_system_registered_raises :
  systems (self st_system) = [s_phys] ∧
  (has_system Physics st_system).1 = Return true ∧
  pop_system Physics st_system = (Raise TypeError, st_system) ∧
  (has_system Physics (pop_system Physics st_system).2).1 = Return true.
Proof. by split_and!. Qed.

(** C10.  Systems are matched by their exact class.  [has_system S]
    returns [True] exactly when a registered system has class [S]; for a
    registered instance [s] of a strict subclass of [S], the class of [s]
    is not [S], a world holding only [s] answers [False], [get_system S]
    does not return [s], and [s] is still registered after
    [pop_system S]. *)
Theorem system_lookup_exact_type st S s :
  s ∈ systems (self st) → strict_subclass (sys_type s) S →
  ((has_system S st).1 = Return true ↔
   ∃ s', s' ∈ systems (self st) ∧ sys_type s' = S) ∧
  sys_type s ≠ S ∧
  (has_system S (push_system s World_init).2).1 = Return false ∧
  (get_system S st).1 ≠ Return (Some s) ∧
  s ∈ systems (self (pop_system S st).2).
Proof.
  intros Hin [_ Hne]. split_and!; [apply has_system_true | done | | done | done].
  rewrite has_system_eq, push_system_eq. simpl.
  by rewrite bool_decide_eq_false_2.
Qed.

Lemma system_lookup_exact_type_witness :
  let st := after_all [CallPushSystem s_phys; CallPushSystem s_grav] World_init in
  ((has_system Physics st).1 = Return true ↔
   ∃ s', s' ∈ systems (self st) ∧ sys_type s' = Physics) ∧
  sys_type s_grav ≠ Physics ∧
  (has_system Physics (push_system s_grav World_init).2).1 = Return false ∧
  (get_system Physics st).1 ≠ Return (Some s_grav) ∧
  s_grav ∈ systems (self (pop_system Physics st).2).
Proof.
  apply (system_lookup_exact_type
           (after_all [CallPushSystem s_phys; CallPushSystem s_grav] World_init)
           Physics s_grav).
  - vm_compute. apply list_elem_of_further, list_elem_of_here.
  - split; [reflexivity | discriminate].
Defined.

(** ** Further properties of the entity list *)

(** X1.  In a reachable state [push_entity] returns an entity that was
    not in the list; it is appended at the end, [has_entity] holds for it,
    it carries no component, and the index and the systems are as
    before. *)
Theorem push_entity_fresh st :
  reachable st →
  ∃ e st', push_entity st = (Return e, st') ∧
    (e ∉ entities (self st)) ∧
    entities (self st') = entities (self st) ++ [e] ∧
    (has_entity e st').1 = Return true ∧
    (∀ T, (get_component_by_entity e T st').1 = Return None) ∧
    components (self st') = components (self st) ∧
    systems (self st') = systems (self st).
Proof.
  intros [_ Ha _]%reachable_inv. do 2 eexists.
  split; [apply push_entity_eq |]. split_and!; try done.
  - intros Hin%Ha. lia.
  - rewrite has_entity_eq. simpl. f_equal. apply py_in_true.
    apply elem_of_app. right. apply list_elem_of_here.
  - intros T. rewrite get_component_by_entity_eq. simpl.
    by rewrite lookup_total_insert_eq.
Qed.

Lemma push_entity_fresh_witness :
  ∃ e st', push_entity st_attached = (Return e, st') ∧
    (e ∉ entities (self st_attached)) ∧
    entities (self st') = entities (self st_attached) ++ [e] ∧
    (has_entity e st').1 = Return true ∧
    (∀ T, (get_component_by_entity e T st').1 = Return None) ∧
    components (self st') = components (self st_attached) ∧
    systems (self st') = systems (self st_attached).
Proof.
  apply (push_entity_fresh st_attached).
  apply reachable_after_all, reachable_init.
Defined.

(** X2.  The entity list of a reachable state never holds an entity
    twice. *)
Theorem reachable_entities_NoDup st :
  reachable st → NoDup (entities (self st)).
Proof. by intros [? _ _]%reachable_inv. Qed.

Lemma reachable_entities_NoDup_witness : NoDup (entities (self st_attached)).
Proof.
  apply (reachable_entities_NoDup st_attached).
  apply reachable_after_all, reachable_init.
Defined.

(** X5.  [pop_entity] of an entity that is not in the list raises
    [ValueError] before anything is changed. *)
Theorem pop_entity_missing_raises st entity :
  entity ∉ entities (self st) →
  pop_entity entity st = (Raise ValueError, st).
Proof.
  intros H. rewrite pop_entity_eq.
  by rewrite (proj2 (py_remove_None _ _) H).
Qed.

Lemma pop_entity_missing_raises_witness :
  pop_entity 7 st_attached = (Raise ValueError, st_attached).
Proof.
  apply (pop_entity_missing_raises st_attached 7).
  apply py_in_false. vm_compute. reflexivity.
Defined.

Lemma py_remove_app_last {A} `{EqDecision A} (x : A) (l : list A) :
  x ∉ l → py_remove x (l ++ [x]) = Some l.
Proof.
  induction l as [| y l IH]; simpl.
  - intros _. by rewrite decide_True.
  - intros [Hne Hl]%not_elem_of_cons.
    rewrite decide_False by done. by rewrite IH.
Qed.

Lemma pop_entity_index_id e (m : gmap pytype (list pyobj)) :
  (∀ T l, m !! T = Some l → Forall is_component l) →
  pop_entity_bucket e <$> m = m.
Proof.
  intros Hm. apply map_eq. intros T. rewrite lookup_fmap.
  destruct (m !! T) as [l |] eqn:E; simpl; [| done].
  f_equal. apply pop_entity_bucket_absent.
  by eapply is_component_not_entity, Hm.
Qed.

(** X10.  In a reachable state, creating an entity and destroying it at
    once gives back the same world: entity list, index and systems. *)
Theorem push_pop_entity_roundtrip st :
  reachable st →
  ∃ e st1 st2,
    push_entity st = (Return e, st1) ∧
    pop_entity e st1 = (Return (), st2) ∧
    self st2 = self st.
Proof.
  intros [_ Ha Hb]%reachable_inv. do 3 eexists.
  split; [apply push_entity_eq |]. rewrite pop_entity_eq. simpl.
  rewrite py_remove_app_last.
  - split; [done |]. simpl. rewrite pop_entity_index_id by done.
    by destruct st as [h n [es cs ss]].
  - intros Hin%Ha. lia.
Qed.

Lemma push_pop_entity_roundtrip_witness :
  ∃ e st1 st2,
    push_entity st_attached = (Return e, st1) ∧
    pop_entity e st1 = (Return (), st2) ∧
    self st2 = self st_attached.
Proof.
  apply (push_pop_entity_roundtrip st_attached).
  apply reachable_after_all, reachable_init.
Defined.

(** X11.  In a reachable state, [pop_entity] of a live entity only takes
    that entity out of the entity list: the other entities stay, the index
    and the systems are untouched, and the entity object keeps its
    components. *)
Theorem pop_entity_keeps_index st entity :
  reachable st → entity ∈ entities (self st) →
  ∃ st', pop_entity entity st = (Return (), st') ∧
    (∀ e, e ∈ entities (self st') ↔ e ∈ entities (self st) ∧ e ≠ entity) ∧
    components (self st') = components (self st) ∧
    systems (self st') = systems (self st) ∧
    heap st' = heap st.
Proof.
  intros [Hnd Ha Hb]%reachable_inv Hin. rewrite pop_entity_eq.
  destruct (py_remove_is_Some _ _ Hin) as [l E]. rewrite E.
  eexists. split; [done |]. simpl. split_and!; try done.
  - intros e. destruct (py_remove_NoDup _ _ _ E Hnd) as [_ Hnot]. split.
    + intros He. split; [by eapply py_remove_sub |]. by intros ->.
    + intros [He Hne]. by eapply py_remove_other.
  - by apply pop_entity_index_id.
Qed.

Lemma pop_entity_keeps_index_witness :
  ∃ st', pop_entity 0 st_attached = (Return (), st') ∧
    (∀ e, e ∈ entities (self st') ↔ e ∈ entities (self st_attached) ∧ e ≠ 0) ∧
    components (self st') = components (self st_attached) ∧
    systems (self st') = systems (self st_attached) ∧
    heap st' = heap st_attached.
Proof.
  apply (pop_entity_keeps_index st_attached 0).
  - apply reachable_after_all, reachable_init.
  - vm_compute. apply list_elem_of_here.
Defined.

(** ** Further properties of the type index *)

(** X3.  In a reachable state no list of the index holds an entity, so
    [has_component] returns [False] for every entity and every type. *)
Theorem index_holds_no_entity st e T :
  reachable st →
  Forall is_component (bucket st T) ∧
  (has_component e T st).1 = Return false.
Proof.
  intros Hr%reachable_inv. split; [by apply bucket_components |].
  rewrite has_component_eq. simpl. f_equal.
  by apply py_in_false, bucket_no_entity.
Qed.

Lemma index_holds_no_entity_witness :
  Forall is_component (bucket st_attached Position) ∧
  (has_component 0 Position st_attached).1 = Return false.
Proof.
  apply (index_holds_no_entity st_attached 0 Position).
  apply reachable_after_all, reachable_init.
Defined.

(** X4.  In a reachable state [get_components] has two outcomes: the
    empty list when the list of the index is empty, [AttributeError]
    otherwise.  It never returns a component. *)
Theorem get_components_outcome st T :
  reachable st →
  (bucket st T = [] ∧ (get_components T st).1 = Return []) ∨
  (bucket st T ≠ [] ∧ (get_components T st).1 = Raise AttributeError).
Proof.
  intros Hr%reachable_inv. rewrite get_components_eq.
  pose proof (bucket_components st T Hr) as Hb.
  destruct (bucket st T) as [| o l]; [by left |]. right.
  apply Forall_cons in Hb as [Ho _]. by destruct o.
Qed.

Lemma get_components_outcome_witness :
  (bucket st_attached Velocity = [] ∧
   (get_components Velocity st_attached).1 = Return []) ∨
  (bucket st_attached Velocity ≠ [] ∧
   (get_components Velocity st_attached).1 = Raise AttributeError).
Proof.
  apply (get_components_outcome st_attached Velocity).
  apply reachable_after_all, reachable_init.
Defined.

(** X17.  When the list of the index for [T] holds entities only,
    [get_components] returns: one item per listed entity, in order, the
    instance the entity stores for [T] or [None]. *)
Theorem get_components_of_entities st T es :
  bucket st T = ObjEntity <$> es →
  (get_components T st).1 =
    Return ((λ e, Entity._get_component (heap st !!! e) T) <$> es) ∧
  (get_entities_by_component T st).1 = Return (ObjEntity <$> es).
Proof.
  intros Hb. rewrite get_components_eq, get_entities_by_component_eq, Hb.
  by rewrite comprehension_entities.
Qed.

Lemma get_components_of_entities_witness :
  (get_components Position st_indexed).1 =
    Return ((λ e, Entity._get_component (heap st_indexed !!! e) Position)
              <$> [0]) ∧
  (get_entities_by_component Position st_indexed).1
    = Return (ObjEntity <$> [0]).
Proof.
  apply (get_components_of_entities st_indexed Position [0]).
  vm_compute. reflexivity.
Defined.

(** X6.  [pop_component] returns in every state: the [remove] it calls
    is guarded by the membership test, so its [ValueError] cannot
    happen. *)
Theorem pop_component_never_raises st entity T :
  (pop_component entity T st).1 = Return ().
Proof.
  rewrite pop_component_eq. cbv zeta.
  destruct (py_in _ (bucket st T)) eqn:Hin; [| done].
  apply py_in_true, py_remove_is_Some in Hin. destruct Hin as [l E].
  by rewrite E.
Qed.

(** X7.  [pop_component] of a type the entity does not carry, when the
    entity is not listed for it, changes nothing that can be read back:
    the store, the entity list, the systems and every list of the
    index. *)
Theorem pop_component_missing_noop st entity T :
  is_Some (heap st !! entity) →
  Entity._has_component (heap st !!! entity) T = false →
  ObjEntity entity ∉ bucket st T →
  ∃ st', pop_component entity T st = (Return (), st') ∧
    heap st' = heap st ∧
    entities (self st') = entities (self st) ∧
    systems (self st') = systems (self st) ∧
    ∀ T', bucket st' T' = bucket st T'.
Proof.
  intros [obj Hobj] Hno Hnot. rewrite pop_component_eq. cbv zeta.
  rewrite (proj2 (py_in_false _ _) Hnot).
  eexists. split; [done |]. simpl. split_and!; [| done | done |].
  - rewrite (lookup_total_correct _ _ _ Hobj) in *.
    apply insert_id. rewrite Hobj. f_equal.
    destruct obj as [m]. unfold Entity._pop_component. simpl. f_equal.
    symmetry. apply delete_id. unfold Entity._has_component in Hno.
    simpl in Hno. apply bool_decide_eq_false in Hno.
    by apply eq_None_not_Some.
  - intros T'. unfold bucket. simpl. apply materialise_lookup_default.
Qed.

Lemma pop_component_missing_noop_witness :
  ∃ st', pop_component 0 Velocity st_attached = (Return (), st') ∧
    heap st' = heap st_attached ∧
    entities (self st') = entities (self st_attached) ∧
    systems (self st') = systems (self st_attached) ∧
    ∀ T', bucket st' T' = bucket st_attached T'.
Proof.
  apply (pop_component_missing_noop st_attached 0 Velocity).
  - vm_compute. eexists. reflexivity.
  - vm_compute. reflexivity.
  - apply py_in_false. vm_compute. reflexivity.
Defined.

(** X8.  [push_component] returns in every state, whether or not the
    entity is in the entity list.  It stores the component in the entity
    and appends it to the list for its type; the entity list, the systems,
    the other lists, and every other (entity, type) pair are as before. *)
Theorem push_component_frame st e c :
  ∃ st', push_component e c st = (Return (), st') ∧
    (get_component_by_entity e (comp_type c) st').1 = Return (Some c) ∧
    bucket st' (comp_type c) = bucket st (comp_type c) ++ [ObjComponent c] ∧
    entities (self st') = entities (self st) ∧
    systems (self st') = systems (self st) ∧
    (∀ T, T ≠ comp_type c → bucket st' T = bucket st T) ∧
    (∀ e' T, e' ≠ e ∨ T ≠ comp_type c →
       (get_component_by_entity e' T st').1 =
       (get_component_by_entity e' T st).1).
Proof.
  eexists. split; [apply push_component_eq |].
  split_and!; try done.
  - rewrite get_component_by_entity_eq. simpl.
    rewrite lookup_total_insert_eq. unfold Entity._get_component. simpl.
    by rewrite lookup_insert_eq.
  - unfold bucket. simpl. by rewrite lookup_insert_eq.
  - intros T HT. unfold bucket at 1. simpl.
    rewrite lookup_insert_ne by done. apply materialise_lookup_default.
  - intros e' T Hor. rewrite !get_component_by_entity_eq. simpl. f_equal.
    destruct (decide (e' = e)) as [-> | Hne].
    + destruct Hor as [? | HT]; [done |].
      rewrite lookup_total_insert_eq. unfold Entity._get_component. simpl.
      by rewrite lookup_insert_ne.
    + by rewrite lookup_total_insert_ne.
Qed.

(** X9.  [pop_component] touches one entity and one list: afterwards the
    entity has no component of type [T], the list for [T] holds nothing
    that it did not hold, and the entity list, the systems, the other
    lists and every other (entity, type) pair are as before. *)
Theorem pop_component_frame st e T :
  ∃ st', pop_component e T st = (Return (), st') ∧
    (get_component_by_entity e T st').1 = Return None ∧
    (∀ o, o ∈ bucket st' T → o ∈ bucket st T) ∧
    (∀ o, o ∈ bucket st T → o ≠ ObjEntity e → o ∈ bucket st' T) ∧
    entities (self st') = entities (self st) ∧
    systems (self st') = systems (self st) ∧
    (∀ T', T' ≠ T → bucket st' T' = bucket st T') ∧
    (∀ e' T', e' ≠ e ∨ T' ≠ T →
       (get_component_by_entity e' T' st').1 =
       (get_component_by_entity e' T' st).1).
Proof.
  rewrite pop_component_eq. cbv zeta.
  assert (∀ m, (get_component_by_entity e T
            (mkState (<[e := Entity._pop_component (heap st !!! e) T]> (heap st))
                     (next_addr st) m)).1 = Return None) as Hget.
  { intros m. rewrite get_component_by_entity_eq. simpl.
    rewrite lookup_total_insert_eq. unfold Entity._get_component. simpl.
    by rewrite lookup_delete_eq. }
  assert (∀ m e' T', e' ≠ e ∨ T' ≠ T →
            (get_component_by_entity e' T'
            (mkState (<[e := Entity._pop_component (heap st !!! e) T]> (heap st))
                     (next_addr st) m)).1 =
            (get_component_by_entity e' T' st).1) as Hother.
  { intros m e' T' Hor. rewrite !get_component_by_entity_eq. simpl. f_equal.
    destruct (decide (e' = e)) as [-> | Hne].
    - destruct Hor as [? | HT]; [done |].
      rewrite lookup_total_insert_eq. unfold Entity._get_component. simpl.
      by rewrite lookup_delete_ne.
    - by rewrite lookup_total_insert_ne. }
  destruct (py_in _ (bucket st T)) eqn:Hin.
  - apply py_in_true, py_remove_is_Some in Hin. destruct Hin as [l E].
    rewrite E. eexists. split; [done |].
    assert (∀ m, bucket (mkState m (next_addr st)
              (mkWorld (entities (self st))
                 (<[T := l]> (materialise T (components (self st))))
                 (systems (self st)))) T = l) as HbT.
    { intros m. unfold bucket. simpl. by rewrite lookup_insert_eq. }
    split_and!; try done.
    + intros o. rewrite HbT. by eapply py_remove_sub.
    + intros o Ho Hne. rewrite HbT. by eapply py_remove_other.
    + intros T' HT. unfold bucket at 1. simpl.
      rewrite lookup_insert_ne by done. apply materialise_lookup_default.
    + apply Hother.
  - eexists. split; [done |].
    assert (∀ m T', bucket (mkState m (next_addr st)
              (mkWorld (entities (self st))
                 (materialise T (components (self st)))
                 (systems (self st)))) T' = bucket st T') as HbT.
    { intros m T'. unfold bucket. simpl. apply materialise_lookup_default. }
    split_and!; try done.
    + intros o. by rewrite HbT.
    + intros o Ho _. by rewrite HbT.
    + apply Hother.
Qed.

(** X12.  In a reachable state the only call that changes a list of the
    index is [push_component], which appends; nothing is ever taken out,
    neither by [pop_component] nor by [pop_entity]. *)
Theorem index_only_grows st c T :
  reachable st →
  bucket (after c st) T =
  bucket st T ++
  match c with
  | CallPushComponent _ comp =>
      if decide (comp_type comp = T) then [ObjComponent comp] else []
  | _ => []
  end.
Proof.
  intros Hr%reachable_inv. destruct c; cbn [after]; rewrite ?app_nil_r.
  - done.
  - done.
  - rewrite pop_entity_eq.
    destruct (py_remove _ _) as [l |]; [| done].
    unfold bucket. simpl. destruct Hr as [_ _ Hb].
    by rewrite pop_entity_index_id.
  - rewrite has_component_eq. apply bucket_touch.
  - rewrite get_components_eq, comprehension_state. apply bucket_touch.
  - rewrite get_entities_by_component_eq. apply bucket_touch.
  - done.
  - rewrite push_component_eq. unfold bucket at 1. simpl.
    destruct (decide (comp_type component = T)) as [<- | Hne].
    + by rewrite lookup_insert_eq.
    + rewrite lookup_insert_ne, app_nil_r by done.
      apply materialise_lookup_default.
  - rewrite pop_component_eq. cbv zeta.
    rewrite (proj2 (py_in_false _ _) (bucket_no_entity st _ entity Hr)).
    unfold bucket at 1. simpl. apply materialise_lookup_default.
  - done.
  - done.
  - done.
  - done.
Qed.

Lemma index_only_grows_witness :
  bucket (after (CallPopComponent 0 Position) st_attached) Position =
  bucket st_attached Position ++ [].
Proof.
  apply (index_only_grows st_attached (CallPopComponent 0 Position) Position).
  apply reachable_after_all, reachable_init.
Defined.

(** X16.  Attaching a component to an entity that has none of that type
    and detaching it again, in a reachable state: the store, the entity
    list and the systems are as before, and the component stays in the
    list of the index for its type. *)
Theorem push_pop_component_leaves_item st e c obj :
  reachable st →
  heap st !! e = Some obj →
  Entity._has_component obj (comp_type c) = false →
  ∃ st1 st2,
    push_component e c st = (Return (), st1) ∧
    pop_component e (comp_type c) st1 = (Return (), st2) ∧
    heap st2 = heap st ∧
    entities (self st2) = entities (self st) ∧
    systems (self st2) = systems (self st) ∧
    ∀ T, bucket st2 T =
         bucket st T ++
         if decide (comp_type c = T) then [ObjComponent c] else [].
Proof.
  intros Hr%reachable_inv Hobj Hno.
  pose proof (inv_push_component e c st Hr) as Hinv1.
  pose proof (bucket_no_entity _ (comp_type c) e Hinv1) as Hnot.
  rewrite push_component_eq in *. do 2 eexists. split; [done |].
  rewrite pop_component_eq. cbv zeta.
  rewrite (proj2 (py_in_false _ _) Hnot). split; [done |].
  cbn [heap self entities systems fst snd]. split_and!; [| done | done |].
  - rewrite lookup_total_insert_eq, insert_insert_eq.
    rewrite (lookup_total_correct _ _ _ Hobj).
    apply insert_id. rewrite Hobj. f_equal. destruct obj as [m].
    unfold Entity._pop_component, Entity._push_component. simpl. f_equal.
    rewrite delete_insert_eq. symmetry. apply delete_id.
    unfold Entity._has_component in Hno. simpl in Hno.
    apply bool_decide_eq_false in Hno. by apply eq_None_not_Some.
  - intros T. unfold bucket at 1. cbn [self components].
    rewrite materialise_lookup_default.
    destruct (decide (comp_type c = T)) as [<- | Hne].
    + by rewrite lookup_insert_eq.
    + rewrite lookup_insert_ne, app_nil_r by done.
      apply materialise_lookup_default.
Qed.

Lemma push_pop_component_leaves_item_witness :
  let st := after CallPushEntity World_init in
  ∃ st1 st2,
    push_component 0 c_pos0 st = (Return (), st1) ∧
    pop_component 0 (comp_type c_pos0) st1 = (Return (), st2) ∧
    heap st2 = heap st ∧
    entities (self st2) = entities (self st) ∧
    systems (self st2) = systems (self st) ∧
    ∀ T, bucket st2 T =
         bucket st T ++
         if decide (comp_type c_pos0 = T) then [ObjComponent c_pos0] else [].
Proof.
  apply (push_pop_component_leaves_item
           (after CallPushEntity World_init) 0 c_pos0 Entity.init).
  - apply reachable_call, reachable_init.
  - vm_compute. reflexivity.
  - vm_compute. reflexivity.
Defined.

(** ** Further properties of the queries *)

(** X15.  A query leaves the store, the entity list, the systems and the
    content of every list of the index as they were, whether it returns
    or raises. *)
Theorem queries_read_only c st :
  is_query c = true →
  heap (after c st) = heap st ∧
  next_addr (after c st) = next_addr st ∧
  entities (self (after c st)) = entities (self st) ∧
  systems (self (after c st)) = systems (self st) ∧
  ∀ T, bucket (after c st) T = bucket st T.
Proof.
  destruct c; try discriminate; intros _; cbn [after].
  - done.
  - rewrite has_component_eq. split_and!; try done. apply bucket_touch.
  - rewrite get_components_eq, comprehension_state.
    split_and!; try done. apply bucket_touch.
  - rewrite get_entities_by_component_eq.
    split_and!; try done. apply bucket_touch.
  - done.
  - done.
  - done.
Qed.

Lemma queries_read_only_witness :
  let c := CallGetComponents Position in
  heap (after c st_attached) = heap st_attached ∧
  next_addr (after c st_attached) = next_addr st_attached ∧
  entities (self (after c st_attached)) = entities (self st_attached) ∧
  systems (self (after c st_attached)) = systems (self st_attached) ∧
  ∀ T, bucket (after c st_attached) T = bucket st_attached T.
Proof.
  apply (queries_read_only (CallGetComponents Position) st_attached).
  reflexivity.
Defined.

(** X18.  The three queries that index the [defaultdict] leave their key
    in it: after [has_component], [get_entities_by_component] or
    [get_components] for [T], [T] is a key bound to the list it had, or
    to an empty list when it was not a key; the rest of the dictionary
    is as before. *)
Theorem index_queries_add_key st e T :
  Forall (λ st', components (self st') !! T = Some (bucket st T) ∧
                 delete T (components (self st'))
                 = delete T (components (self st)))
         [(has_component e T st).2;
          (get_entities_by_component T st).2;
          (get_components T st).2].
Proof.
  rewrite has_component_eq, get_entities_by_component_eq, get_components_eq,
    comprehension_state. cbn [snd].
  assert (components (self (touch T st)) !! T = Some (bucket st T) ∧
          delete T (components (self (touch T st)))
          = delete T (components (self st))) as H.
  { simpl. split; [apply materialise_lookup_eq |].
    unfold materialise. destruct (components (self st) !! T); [done |].
    by rewrite delete_insert_eq. }
  by repeat apply Forall_cons_2.
Qed.

(** X20.  On a fresh world the queries on entities and components
    return [False], [None] or an empty list, for every entity and class. *)
Theorem fresh_world_queries e T S :
  (has_entity e World_init).1 = Return false ∧
  (has_component e T World_init).1 = Return false ∧
  (get_components T World_init).1 = Return [] ∧
  (get_entities_by_component T World_init).1 = Return [] ∧
  (get_component_by_entity e T World_init).1 = Return None ∧
  (has_system S World_init).1 = Return false.
Proof.
  rewrite has_component_eq, get_components_eq, get_entities_by_component_eq.
  by split_and!.
Qed.

(** ** Further properties of the system list *)

Lemma py_any_app (l k : list bool) : py_any (l ++ k) = py_any l || py_any k.
Proof.
  induction l as [| b l IH]; simpl; [done |].
  by rewrite IH, orb_assoc.
Qed.

(** X13.  [push_system] is the only call that changes the system list,
    and it appends: no call removes a system, and a system pushed twice
    is listed twice. *)
Theorem systems_only_grow c st :
  systems (self (after c st)) =
  systems (self st) ++
  match c with
  | CallPushSystem s => [s]
  | _ => []
  end.
Proof.
  destruct c; cbn [after]; rewrite ?app_nil_r.
  - done.
  - done.
  - rewrite pop_entity_eq. by destruct (py_remove _ _).
  - by rewrite has_component_eq.
  - by rewrite get_components_eq, comprehension_state.
  - by rewrite get_entities_by_component_eq.
  - done.
  - by rewrite push_component_eq.
  - rewrite pop_component_eq. cbv zeta.
    by destruct (py_in _ _); [destruct (py_remove _ _) |].
  - done.
  - done.
  - done.
  - done.
Qed.

(** X14.  After [push_system], [has_system] holds for the class of the
    pushed system, and for every other class it answers as before. *)
Theorem has_system_after_push st s S :
  ∃ b, (has_system S st).1 = Return b ∧
       (has_system S (push_system s st).2).1
         = Return (b || bool_decide (sys_type s = S)).
Proof.
  eexists. split; [by rewrite has_system_eq |].
  rewrite has_system_eq, push_system_eq. simpl. f_equal.
  rewrite fmap_app, py_any_app. simpl. by rewrite orb_false_r.
Qed.

(** ** The dictionary of an entity *)

(** X19.  The methods of [Entity] behave as one dictionary slot per
    class: [_get_component] reads what [_push_component] wrote last for
    that class and is unaffected by other classes, [_has_component] holds
    exactly when [_get_component] returns an instance, and
    [_pop_component] empties the slot, whether it was written or not. *)
Theorem Entity_slots (obj : Entity.t) (c : Component) (i : nat) (T : pytype) :
  Entity._get_component (Entity._push_component obj c) T
    = (if decide (T = comp_type c) then Some c
       else Entity._get_component obj T) ∧
  Entity._get_component (Entity._pop_component obj (comp_type c)) T
    = (if decide (T = comp_type c) then None
       else Entity._get_component obj T) ∧
  (Entity._has_component obj T = true ↔
   ∃ c', Entity._get_component obj T = Some c') ∧
  Entity._push_component (Entity._push_component obj c)
                         (mkComponent i (comp_type c))
    = Entity._push_component obj (mkComponent i (comp_type c)) ∧
  Entity._pop_component (Entity._push_component obj c) (comp_type c)
    = Entity._pop_component obj (comp_type c) ∧
  Entity._pop_component (Entity._pop_component obj T) T
    = Entity._pop_component obj T.
Proof.
  destruct obj as [m].
  unfold Entity._get_component, Entity._push_component,
    Entity._pop_component, Entity._has_component. simpl.
  split_and!.
  - destruct (decide (T = comp_type c)) as [-> | Hne].
    + by rewrite lookup_insert_eq.
    + by rewrite lookup_insert_ne.
  - destruct (decide (T = comp_type c)) as [-> | Hne].
    + by rewrite lookup_delete_eq.
    + by rewrite lookup_delete_ne.
  - by rewrite bool_decide_eq_true.
  - by rewrite insert_insert_eq.
  - by rewrite delete_insert_eq.
  - by rewrite delete_delete_eq.
Qed.
